(** * dmn-js [lib/Modeler.js]: identifier registry life cycle and
      table/diagram synchronisation

    A shallow embedding of the DMN modeler's core: the three event handlers
    installed by the [Modeler] constructor, [_collectIds], [_createModdle]
    and [createDecisionDi], over a small model of the JavaScript heap.

    JavaScript objects are string-keyed property maps living in a store
    indexed by object identity, so that aliasing ([decision.extensionElements]
    is read again at every use, the notification carries the very container
    that was parented) is the aliasing of the source.  Reading a property of
    [undefined] or [null] raises a [TypeError], as it does in the browser. *)

From stdpp Require Import gmap strings list fin_maps.
From Stdlib Require Import ZArith.

#[local] Set Warnings "-clear-no-such-hyp".

Open Scope string_scope.
Open Scope Z_scope.
Open Scope list_scope.

(** ** Values and objects *)

(** Object identity. *)
Abbreviation loc := positive.

(** JavaScript values.  Numbers are the integers the source uses (positions
    and sizes); [VFun] stands for a function or constructor value such as an
    imported module, whose own properties are outside the model (it is
    passed around, never read from or written to). *)
Inductive val :=
| VUndef
| VNull
| VBool (b : bool)
| VNum (n : Z)
| VStr (s : string)
| VFun (name : string)
| VRef (l : loc).

#[global] Instance val_eq_dec : EqDecision val.
Proof. solve_decision. Defined.

(** [ToBoolean]: what [!v], [a && b] and [a || b] test. *)
Definition truthy (v : val) : bool :=
  match v with
  | VUndef | VNull => false
  | VBool b => b
  | VNum n => negb (n =? 0)
  | VStr s => match s with EmptyString => false | String _ _ => true end
  | VFun _ | VRef _ => true
  end.

(** [a || b] on values. *)
Definition js_or (a b : val) : val := if truthy a then a else b.

(** Besides its properties an object may be an array (with its items) or an
    [Ids] registry of the [ids] package (with the constructor's seed and the
    table of claimed identifiers, each mapped to its owner). *)
Inductive kind :=
| KPlain
| KArray (items : list val)
| KIds (seed : list Z) (hats : gmap string val).

Record obj := Obj { props : gmap string val; okind : kind }.

Definition empty_obj : obj := Obj ∅ KPlain.

(** The object a reference denotes; a location the store does not list is an
    object without own properties. *)
Definition obj_at (h : gmap loc obj) (l : loc) : obj := default empty_obj (h !! l).

Definition prop_of (h : gmap loc obj) (l : loc) (k : string) : val :=
  default VUndef (props (obj_at h l) !! k).

Definition items_of (h : gmap loc obj) (l : loc) : option (list val) :=
  match okind (obj_at h l) with KArray items => Some items | _ => None end.

Definition hats_of (h : gmap loc obj) (l : loc) : option (gmap string val) :=
  match okind (obj_at h l) with KIds _ hats => Some hats | _ => None end.

Definition seed_of (h : gmap loc obj) (l : loc) : option (list Z) :=
  match okind (obj_at h l) with KIds seed _ => Some seed | _ => None end.

(** The claimed set of a registry: the keys of its table. *)
Definition claimed (h : gmap loc obj) (l : loc) : gset string :=
  match hats_of h l with Some hats => dom hats | None => ∅ end.

(** ** The world the handlers run in *)

(** What a collaborator can observe, in the order it happens. *)
Inductive action :=
| ASetProp (target : loc) (key : string) (v : val)
| AAssign (target : loc) (source : gmap string val)
| APush (array : loc) (item : val)
| AAddShape (shape : val)
| AFire (name : string) (payload : gmap string val).

(** [heap]: the objects; [canvas]: the shapes inserted through
    [canvas.addShape], oldest first; [fired]: the events fired on the event
    bus, oldest first; [history]: every write and collaborator call made by
    this file, each with the store as it was when the action took effect. *)
Record world := World {
  heap : gmap loc obj;
  canvas : list val;
  fired : list (string * gmap string val);
  history : list (action * gmap loc obj)
}.

Inductive exn := TypeError (msg : string).

Inductive outcome (A : Type) :=
| Ok (a : A)
| Throw (e : exn).
Arguments Ok {A} a.
Arguments Throw {A} e.

(** A computation changes the world and returns or throws; what it changed
    before throwing stays changed. *)
Definition M (A : Type) : Type := world → outcome A * world.

Definition throw {A} (msg : string) : M A := λ w, (Throw (TypeError msg), w).

#[global] Instance M_ret : MRet M := λ A a w, (Ok a, w).

#[global] Instance M_bind : MBind M := λ A B k m w,
  match m w with
  | (Ok a, w') => k a w'
  | (Throw e, w') => (Throw e, w')
  end.

Definition set_heap (h : gmap loc obj) (w : world) : world :=
  World h (canvas w) (fired w) (history w).

Definition record (a : action) (w : world) : world :=
  World (heap w) (canvas w) (fired w) (history w ++ [(a, heap w)]).

(** [v.k] *)
Definition get_prop (v : val) (k : string) : M val :=
  λ w, match v with
       | VUndef | VNull => throw "cannot read a property of undefined or null" w
       | VRef l => (Ok (prop_of (heap w) l k), w)
       | _ => (Ok VUndef, w)
       end.

(** The two ways an object changes: its properties, or what it holds as an
    array or a registry. *)
Definition write_props (l : loc) (p : gmap string val) (h : gmap loc obj) : gmap loc obj :=
  <[l := Obj p (okind (obj_at h l))]> h.

Definition write_kind (l : loc) (c : kind) (h : gmap loc obj) : gmap loc obj :=
  <[l := Obj (props (obj_at h l)) c]> h.

Definition write_prop (l : loc) (k : string) (x : val) (h : gmap loc obj) : gmap loc obj :=
  write_props l (<[k := x]> (props (obj_at h l))) h.

(** [v.k = x], in strict mode (the file opens with ['use strict']): a
    primitive target is a [TypeError] too.  A function value is opaque in
    this model (the source passes [TableModeler] around and never writes to
    a function): a write to one is not represented and is treated like a
    write to a primitive. *)
Definition set_prop (v : val) (k : string) (x : val) : M unit :=
  λ w, match v with
       | VRef l => (Ok tt, record (ASetProp l k x) (set_heap (write_prop l k x (heap w)) w))
       | _ => throw "cannot set a property of undefined, null or a primitive" w
       end.

(** An object literal or a [new]: a location the store does not list yet. *)
Definition new_object (o : obj) : M val :=
  λ w, let l := fresh (dom (heap w)) in (Ok (VRef l), set_heap (<[l := o]> (heap w)) w).

(** The own enumerable string keys of a value with their values, as [for in]
    and lodash's [keys] see them.  Index keys of arrays and the characters of
    primitive strings are outside this model: the values enumerated in this
    file are the element index and the options object. *)
Definition own_props (h : gmap loc obj) (v : val) : gmap string val :=
  match v with
  | VRef l => props (obj_at h l)
  | _ => ∅
  end.

Definition own_keys (v : val) : M (list string) :=
  λ w, (Ok ((map_to_list (own_props (heap w) v)).*1), w).

(** The body of a [for (x in ...)] loop, run once per key. *)
Fixpoint for_each {A} (l : list A) (body : A → M unit) : M unit :=
  match l with
  | [] => mret tt
  | x :: l' => body x ;; for_each l' body
  end.

(** ** Collaborators from packages *)

(** lodash's [assign(object, source)]: the own enumerable properties of
    [source] are copied onto [object], which is returned; nothing is copied
    onto an [object] that is [undefined] or [null] (or, outside strict mode,
    a primitive), and a falsy [source] is skipped. *)
Definition assign_props (object source : gmap string val) : gmap string val :=
  source ∪ object.

Definition assign (object : val) (source : gmap string val) : M val :=
  λ w, match object with
       | VRef l =>
           let p := assign_props (props (obj_at (heap w) l)) source in
           (Ok object, record (AAssign l source) (set_heap (write_props l p (heap w)) w))
       | _ => (Ok object, w)
       end.

(** [array.push(item)]; calling [push] on what is not an array is a
    [TypeError] ([undefined] is not a function). *)
Definition array_push (array item : val) : M unit :=
  λ w, match array with
       | VRef l =>
           match okind (obj_at (heap w) l) with
           | KArray items =>
               (Ok tt,
                record (APush l item)
                  (set_heap (write_kind l (KArray (items ++ [item])) (heap w)) w))
           | _ => throw "push is not a function" w
           end
       | VUndef | VNull => throw "cannot read a property of undefined or null" w
       | _ => throw "push is not a function" w
       end.

(** Modelled from the spec: [new Ids(seed)] of the [ids] package, a registry
    that keeps the parameters it is constructed with and has nothing
    claimed. *)
Definition new_Ids (seed : list Z) : M val := new_object (Obj ∅ (KIds seed ∅)).

(** A method of the registry: a [TypeError] on anything else. *)
Definition with_registry (ids : val)
    (f : gmap string val → gmap string val) : M unit :=
  λ w, match ids with
       | VRef l =>
           match okind (obj_at (heap w) l) with
           | KIds seed hats =>
               (Ok tt, set_heap (write_kind l (KIds seed (f hats)) (heap w)) w)
           | _ => throw "not a function" w
           end
       | VUndef | VNull => throw "cannot read a property of undefined or null" w
       | _ => throw "not a function" w
       end.

(** Modelled from the spec: [clear()] removes all claimed identifiers. *)
Definition ids_clear (ids : val) : M unit := with_registry ids (λ _, ∅).

(** Modelled from the spec: [claim(identifier, owner)] registers the
    identifier as in use, associated with its owner ([element || true]). *)
Definition ids_claim (ids : val) (id : string) (element : val) : M unit :=
  with_registry ids (λ hats, <[id := js_or element (VBool true)]> hats).

(** Modelled from the spec: the canvas capability [addShape(DiagramShape)]
    of diagram-js inserts the shape into the canvas's shape collection; its
    listeners see the store of that moment. *)
Definition canvas_addShape (shape : val) : M unit :=
  λ w, (Ok tt, World (heap w) (canvas w ++ [shape]) (fired w)
                 (history w ++ [(AAddShape shape, heap w)])).

(** Modelled from the spec: the event-emission capability
    [fire(eventName, payload)] of diagram-js delivers one event. *)
Definition eventBus_fire (name : string) (payload : gmap string val) : M unit :=
  λ w, (Ok tt, World (heap w) (canvas w) (fired w ++ [(name, payload)])
                 (history w ++ [(AFire name payload, heap w)])).

(** A service of this repository whose code is another module's: it may
    allocate and change objects and return or throw, and has no access to the
    canvas or the event bus. *)
Abbreviation service := (gmap loc obj → outcome val * gmap loc obj).

Definition call (f : service) : M val :=
  λ w, let '(r, h) := f (heap w) in (r, set_heap h w).

(** The payloads of the three events the handlers listen to. *)
Record ParseComplete := {
  error : val;
  definitions : val;
  context : val
}.

Record SwitchContext := {
  decision : val;
  fromTable : val
}.

Inductive event :=
| ImportParseComplete (e : ParseComplete)
| TableDestroy
| ViewSwitch (c : SwitchContext).

(** [require('./table/Modeler')] *)
Definition TableModeler : val := VFun "./table/Modeler".

(** ** The modeler *)

Section Modeler.

(** [elementFactory.createShape(attrs)], [drdFactory.createDiBounds(attrs)]
    and [Viewer.prototype._createModdle.call(this, options)], resolved by
    name at run time; their modules are not part of this file. *)
Variable createShape : gmap string val → service.
Variable createDiBounds : gmap string val → service.
Variable Viewer_createModdle : val → service.

(** [Modeler], lines 107 and 109: the options the [Viewer] is called with. *)
Definition Modeler_options (options : val) : M val :=
  target ← new_object (Obj {[ "editingAllowed" := VBool true ]} KPlain);
  source ← (λ w, (Ok (if truthy options then own_props (heap w) options else ∅), w));
  options ← assign target source;
  set_prop options "editor" TableModeler;;
  mret options.

Definition _createModdle (options : val) : M val :=
  moddle ← call (Viewer_createModdle options);
  ids ← new_Ids [32; 36; 1];
  set_prop moddle "ids" ids;;
  mret moddle.

Definition _collectIds (definitions context : val) : M unit :=
  moddle ← get_prop definitions "$model";
  ids ← get_prop moddle "ids";
  ids_clear ids;;
  elementsById ← get_prop context "elementsById";
  keys ← own_keys elementsById;
  for_each keys (λ id,
    elementsById ← get_prop context "elementsById";
    element ← get_prop elementsById id;
    ids_claim ids id element).

Definition createDecisionDi (decision : val) : M unit :=
  decisionShape ← call (createShape
    {[ "type" := VStr "dmn:Decision"; "businessObject" := decision ]});
  decisionShape ← assign decisionShape {[ "x" := VNum 200; "y" := VNum 200 ]};
  width ← get_prop decisionShape "width";
  height ← get_prop decisionShape "height";
  bounds ← call (createDiBounds
    {[ "x" := VNum 200; "y" := VNum 200; "width" := width; "height" := height ]});
  extensionElements ← get_prop decision "extensionElements";
  set_prop extensionElements "$parent" decision;;
  extensionElements ← get_prop decision "extensionElements";
  set_prop bounds "$parent" extensionElements;;
  extensionElements ← get_prop decision "extensionElements";
  values ← get_prop extensionElements "values";
  array_push values bounds;;
  canvas_addShape decisionShape;;
  di ← get_prop decision "extensionElements";
  eventBus_fire "drdElement.added" {[ "element" := decisionShape; "di" := di ]}.

(** The handler of ['import.parse.complete']. *)
Definition on_import_parse_complete (this : val) (event : ParseComplete) : M unit :=
  if negb (truthy (error event))
  then _collectIds (definitions event) (context event)
  else mret tt.

(** The handler of ['table.destroy']. *)
Definition on_table_destroy (this : val) : M unit :=
  moddle ← get_prop this "moddle";
  ids ← get_prop moddle "ids";
  ids_clear ids.

(** The handler of ['view.switch']; [&&] evaluates its right operand only
    when the left one is truthy. *)
Definition on_view_switch (this : val) (context : SwitchContext) : M unit :=
  let decision := decision context in
  if truthy (fromTable context) then
    extensionElements ← get_prop decision "extensionElements";
    if negb (truthy extensionElements)
    then createDecisionDi decision
    else mret tt
  else mret tt.

(** The three [this.on(...)] registrations of the constructor. *)
Definition handle (this : val) (ev : event) : M unit :=
  match ev with
  | ImportParseComplete e => on_import_parse_complete this e
  | TableDestroy => on_table_destroy this
  | ViewSwitch c => on_view_switch this c
  end.

End Modeler.

(** The three object literals of [createDecisionDi], and the store once the
    shape [s] has been given its position. *)
Definition shape_attrs (decision : val) : gmap string val :=
  {[ "type" := VStr "dmn:Decision"; "businessObject" := decision ]}.

Definition default_position : gmap string val :=
  {[ "x" := VNum 200; "y" := VNum 200 ]}.

Definition bounds_attrs (width height : val) : gmap string val :=
  {[ "x" := VNum 200; "y" := VNum 200; "width" := width; "height" := height ]}.

Definition placed (s : loc) (h : gmap loc obj) : gmap loc obj :=
  write_props s (assign_props (props (obj_at h s)) default_position) h.

Definition added_event (shape di : val) : string * gmap string val :=
  ("drdElement.added", {[ "element" := shape; "di" := di ]}).




(** What [_collectIds] leaves claimed for the element index [elementsById]:
    every own key, for the element it maps to. *)
Definition claim_all (h : gmap loc obj) (elementsById : val) : gmap string val :=
  foldl (λ acc id,
           <[id := js_or (match elementsById with
                          | VRef b => prop_of h b id
                          | _ => VUndef
                          end) (VBool true)]> acc)
        ∅ (map_to_list (own_props h elementsById)).*1.

(** [owner.k.ids] is a registry. *)
Definition registry_under (h : gmap loc obj) (owner : val) (k : string) (r : loc) : Prop :=
  ∃ o m, owner = VRef o ∧ prop_of h o k = VRef m ∧ prop_of h m "ids" = VRef r ∧
         is_Some (hats_of h r).

(** The conditions under which the host delivers an event (spec, section
    6): a parse that failed, or a parsed document whose model carries its
    registry and whose context is an object; a modeler whose model carries
    its registry; a switch that is not from the table, or whose Decision is
    an object. *)
Definition delivered (this : val) (ev : event) (w : world) : Prop :=
  match ev with
  | ImportParseComplete e =>
      truthy (error e) = true ∨
      ((∃ r, registry_under (heap w) (definitions e) "$model" r) ∧ ∃ c, context e = VRef c)
  | TableDestroy => ∃ r, registry_under (heap w) this "moddle" r
  | ViewSwitch c => truthy (fromTable c) = false ∨ ∃ d, decision c = VRef d
  end.

(** The claimed reading of the registry's parameters: the lengths of a long
    core segment, of a shorter fixed-position segment and of a minimal
    suffix, in this order. *)
Definition three_tier_lengths (seed : list Z) : Prop :=
  ∃ core fixed suffix, seed = [core; fixed; suffix] ∧ fixed < core ∧ suffix ≤ fixed.

(** Modelled from the spec: fresh-identifier generation of the registry (the
    [ids] package is not part of this file).  Of the candidates the random
    source proposes, the first that is not in the claimed set is the fresh
    identifier. *)
Fixpoint first_unclaimed (candidates : list string) (hats : gmap string val) : option string :=
  match candidates with
  | [] => None
  | id :: rest =>
      match hats !! id with
      | None => Some id
      | Some _ => first_unclaimed rest hats
      end
  end.

(** Modelled from the spec: [ids.next()], which claims the identifier it
    returns; [None] when the candidates at hand are all claimed. *)
Definition ids_next (candidates : list string) (ids : val) : M (option string) :=
  λ w, match ids with
       | VRef l =>
           match okind (obj_at (heap w) l) with
           | KIds seed hats =>
               match first_unclaimed candidates hats with
               | Some id =>
                   (Ok (Some id),
                    set_heap (write_kind l (KIds seed (<[id := VBool true]> hats)) (heap w)) w)
               | None => (Ok None, w)
               end
           | _ => throw "not a function" w
           end
       | VUndef | VNull => throw "cannot read a property of undefined or null" w
       | _ => throw "not a function" w
       end.

(** ** Factories *)

(** The shape object a shape factory builds, at a location the store does
    not list yet: the attributes it is given and its natural size. *)
Definition new_shape (size : Z * Z) (attrs : gmap string val) : service :=
  λ h, let l := fresh (dom h) in
       (Ok (VRef l),
        <[l := Obj (<["width" := VNum size.1]> (<["height" := VNum size.2]> attrs)) KPlain]> h).

(** Modelled from the spec: the DI-factory capability
    [createDiBounds({x, y, width, height}) -> DiagramInterchangeBounds],
    whose module is not part of this file: a new geometry record. *)
Definition spec_createDiBounds (attrs : gmap string val) : service :=
  λ h, let l := fresh (dom h) in (Ok (VRef l), <[l := Obj attrs KPlain]> h).

(** Modelled from the spec: the shape-factory capability
    [createShape({ type, businessObject }) -> DiagramShape] of the element
    factory, whose module is not part of this file: a new shape for the
    business object.  Step 4 of the synchronisation (and line 198 of the
    source) takes the Decision's extension-elements container to exist once
    the factories have returned: the factory gives a business object that
    has none a new container with an empty value list. *)
Definition di_createShape (size : Z * Z) (attrs : gmap string val) : service :=
  λ h, match attrs !! "businessObject" with
       | Some (VRef b) =>
           if truthy (prop_of h b "extensionElements") then new_shape size attrs h
           else
             let a := fresh (dom h) in
             let h1 := <[a := Obj ∅ (KArray [])]> h in
             let e := fresh (dom h1) in
             let h2 := <[e := Obj {[ "values" := VRef a ]} KPlain]> h1 in
             new_shape size attrs (write_prop b "extensionElements" (VRef e) h2)
       | _ => new_shape size attrs h
       end.

(** Modelled from the spec: the document-model instance the [Viewer]
    creates (its module is not part of this file), a new object. *)
Definition plain_createModdle (options : val) : service :=
  λ h, let l := fresh (dom h) in (Ok (VRef l), <[l := Obj ∅ KPlain]> h).

(** A world with one decision (object 1) that has no extension elements, an
    empty canvas and a silent event bus. *)
Definition table_only : world :=
  World {[ 1%positive := Obj {[ "id" := VStr "decision" ]} KPlain ]} [] [] [].

Definition from_table : SwitchContext :=
  {| decision := VRef 1; fromTable := VBool true |}.

Definition not_from_table : SwitchContext :=
  {| decision := VRef 1; fromTable := VBool false |}.

(** A loaded document: the modeler (1) holds the model instance (2), whose
    registry (3) has A and B claimed by a document loaded earlier; the
    definitions (4) were built by that model; the parse context (5) indexes
    (6) the three elements 7, 8 and 9. *)
Definition loaded : world :=
  World {[ 1%positive := Obj {[ "moddle" := VRef 2 ]} KPlain;
           2%positive := Obj {[ "ids" := VRef 3 ]} KPlain;
           3%positive := Obj ∅ (KIds [32; 36; 1]
                                  {[ "A" := VBool true; "B" := VBool true ]});
           4%positive := Obj {[ "$model" := VRef 2 ]} KPlain;
           5%positive := Obj {[ "elementsById" := VRef 6 ]} KPlain;
           6%positive := Obj {[ "decision" := VRef 7;
                                "decisionTable" := VRef 8;
                                "input1" := VRef 9 ]} KPlain ]} [] [] [].

Definition parsed : ParseComplete :=
  {| error := VUndef; definitions := VRef 4; context := VRef 5 |}.

(** A failed parse: the event carries an [Error] object (10) and no
    definitions. *)
Definition parse_failed : ParseComplete :=
  {| error := VRef 10; definitions := VUndef; context := VUndef |}.

(** A caller's options (object 1). *)
Definition with_options : world :=
  World {[ 1%positive := Obj {[ "width" := VNum 300;
                                "editingAllowed" := VBool false;
                                "editor" := VStr "mine" ]} KPlain ]} [] [] [].

Definition empty_world : world := World ∅ [] [] [].

(** A parse-complete event without error and without context. *)
Definition parsed_without_context : ParseComplete :=
  {| error := VNull; definitions := VRef 4; context := VUndef |}.

(** A parse-complete event whose context (object 4) has no element index. *)
Definition parsed_without_index : ParseComplete :=
  {| error := VUndef; definitions := VRef 4; context := VRef 4 |}.

(** A factory that throws. *)
Definition failing_factory (attrs : gmap string val) : service :=
  λ h, (Throw (TypeError "no shape type specified"), h).

(** ** What a computation leaves alone *)

(** Whatever the outcome, the computation relates the world it ends in to
    the world it started from. *)
Definition preserves {A} (R : world → world → Prop) (m : M A) : Prop :=
  ∀ w r w', m w = (r, w') → R w w'.

(** Canvas and event bus are as they were. *)
Definition quiet (w w' : world) : Prop :=
  canvas w' = canvas w ∧ fired w' = fired w.

(** Nothing differs but the identifiers claimed in registries: canvas,
    event bus and history, every property of every object, every array and
    the parameters of every registry are as they were. *)
Definition only_claims_differ (w w' : world) : Prop :=
  canvas w' = canvas w ∧ fired w' = fired w ∧ history w' = history w ∧
  ∀ l, props (obj_at (heap w') l) = props (obj_at (heap w) l) ∧
       items_of (heap w') l = items_of (heap w) l ∧
       seed_of (heap w') l = seed_of (heap w) l.

(** Canvas and event bus are as they were, or the computation returned
    normally and added exactly one shape and fired exactly one
    ['drdElement.added'] that carries this shape. *)
Definition nothing_or_one_shape (w : world) (r : outcome unit) (w' : world) : Prop :=
  quiet w w' ∨
  (r = Ok tt ∧ ∃ shape di, canvas w' = canvas w ++ [shape] ∧
                           fired w' = fired w ++ [added_event shape di]).

(** [undefined] or [null]. *)
Definition nullish (v : val) : bool :=
  match v with VUndef | VNull => true | _ => false end.

(** A value [for in] finds no key in, whatever the store: [undefined],
    [null], a boolean or a number. *)
Definition without_keys (v : val) : bool :=
  match v with VUndef | VNull | VBool _ | VNum _ => true | _ => false end.

(** * Properties *)

(** ** The store *)

Lemma obj_at_write_props l p h l' :
  obj_at (write_props l p h) l' =
  if decide (l = l') then Obj p (okind (obj_at h l)) else obj_at h l'.
Proof.
  unfold write_props, obj_at. case_decide as Hl.
  - subst l'. by rewrite lookup_insert_eq.
  - by rewrite lookup_insert_ne.
Qed.

Lemma obj_at_write_kind l c h l' :
  obj_at (write_kind l c h) l' =
  if decide (l = l') then Obj (props (obj_at h l)) c else obj_at h l'.
Proof.
  unfold write_kind, obj_at. case_decide as Hl.
  - subst l'. by rewrite lookup_insert_eq.
  - by rewrite lookup_insert_ne.
Qed.

Lemma prop_of_write_prop l k x h l' k' :
  prop_of (write_prop l k x h) l' k' =
  if decide (l = l' ∧ k = k') then x else prop_of h l' k'.
Proof.
  unfold prop_of, write_prop. rewrite obj_at_write_props.
  destruct (decide (l = l')) as [->|Hl]; simpl.
  - destruct (decide (k = k')) as [->|Hk].
    + rewrite lookup_insert_eq. by rewrite decide_True.
    + rewrite lookup_insert_ne by done. rewrite decide_False; [done | by intros [??]].
  - rewrite decide_False; [done | by intros [??]].
Qed.

Lemma prop_of_write_prop_key l k x h l' k' :
  k ≠ k' → prop_of (write_prop l k x h) l' k' = prop_of h l' k'.
Proof. intros Hk. rewrite prop_of_write_prop, decide_False; [done | by intros [??]]. Qed.

Lemma prop_of_write_prop_eq l k x h : prop_of (write_prop l k x h) l k = x.
Proof. by rewrite prop_of_write_prop, decide_True. Qed.

Lemma prop_of_write_kind l c h l' k : prop_of (write_kind l c h) l' k = prop_of h l' k.
Proof. unfold prop_of. rewrite obj_at_write_kind. by case_decide; subst. Qed.

Lemma props_write_kind l c h l' : props (obj_at (write_kind l c h) l') = props (obj_at h l').
Proof. rewrite obj_at_write_kind. by case_decide; subst. Qed.

Lemma okind_write_props l p h l' : okind (obj_at (write_props l p h) l') = okind (obj_at h l').
Proof. rewrite obj_at_write_props. by case_decide; subst. Qed.

Lemma okind_write_prop l k x h l' : okind (obj_at (write_prop l k x h) l') = okind (obj_at h l').
Proof. apply okind_write_props. Qed.

Lemma items_of_write_prop l k x h l' : items_of (write_prop l k x h) l' = items_of h l'.
Proof. unfold items_of. by rewrite okind_write_prop. Qed.


Lemma hats_of_write_kind_eq l seed hats h : hats_of (write_kind l (KIds seed hats) h) l = Some hats.
Proof. unfold hats_of. rewrite obj_at_write_kind. by rewrite decide_True. Qed.

Lemma write_kind_write_kind l c c' h : write_kind l c' (write_kind l c h) = write_kind l c' h.
Proof.
  unfold write_kind at 1. rewrite props_write_kind.
  unfold write_kind. by rewrite insert_insert_eq.
Qed.

Lemma own_props_write_kind l c h v : own_props (write_kind l c h) v = own_props h v.
Proof. destruct v; simpl; try done. apply props_write_kind. Qed.

(** Reading a property never changes the world. *)
Lemma get_prop_cases (v : val) (k : string) (w : world) :
  (∃ x, get_prop v k w = (Ok x, w)) ∨ (∃ e, get_prop v k w = (Throw e, w)).
Proof. destruct v; cbn; eauto. Qed.

(** One step of a computation: open the first bind, then bring the world
    back to a record of its four parts. *)
Ltac open_bind := unfold mbind at 1; unfold M_bind at 1.
Ltac tidy := unfold set_heap, record; cbn [heap canvas fired history].
Ltac read_prop := open_bind; unfold get_prop at 1; tidy.

(** ** What the life-cycle handlers compute *)

Lemma parse_error_skips this (ev : ParseComplete) (w : world) :
  truthy (error ev) = true →
  on_import_parse_complete this ev w = (Ok tt, w).
Proof. intros Herr. unfold on_import_parse_complete. by rewrite Herr. Qed.

(** The loop of [_collectIds], started with [hats] claimed: every key is
    claimed for the element the index maps it to. *)
Lemma collect_loop (c r b : loc) (seed : list Z) (h : gmap loc obj) cv fd hi :
  prop_of h c "elementsById" = VRef b →
  ∀ (keys : list string) (hats : gmap string val),
    for_each keys (λ id,
      elementsById ← get_prop (VRef c) "elementsById";
      element ← get_prop elementsById id;
      ids_claim (VRef r) id element)
      (World (write_kind r (KIds seed hats) h) cv fd hi) =
    (Ok tt,
     World (write_kind r
              (KIds seed (foldl (λ acc id, <[id := js_or (prop_of h b id) (VBool true)]> acc)
                            hats keys)) h) cv fd hi).
Proof.
  intros Hb keys. induction keys as [|id keys IH]; intros hats; [done|].
  cbn [for_each foldl]. open_bind.
  read_prop. rewrite prop_of_write_kind, Hb.
  read_prop. rewrite prop_of_write_kind.
  unfold ids_claim, with_registry. tidy.
  rewrite obj_at_write_kind, decide_True by done. cbn [okind].
  rewrite write_kind_write_kind. apply IH.
Qed.

Lemma collect_result this (ev : ParseComplete) (defs m r c : loc)
    (seed : list Z) (hats : gmap string val) (h : gmap loc obj) cv fd hi :
  truthy (error ev) = false →
  definitions ev = VRef defs →
  prop_of h defs "$model" = VRef m →
  prop_of h m "ids" = VRef r →
  okind (obj_at h r) = KIds seed hats →
  context ev = VRef c →
  on_import_parse_complete this ev (World h cv fd hi) =
  (Ok tt,
   World (write_kind r (KIds seed (claim_all h (prop_of h c "elementsById"))) h) cv fd hi).
Proof.
  intros Herr Hdefs Hm Hr Hk Hc.
  unfold on_import_parse_complete. rewrite Herr, Hdefs, Hc. cbn [negb].
  unfold _collectIds.
  read_prop. rewrite Hm.
  read_prop. rewrite Hr.
  open_bind. unfold ids_clear, with_registry. tidy. rewrite Hk. tidy.
  read_prop. rewrite prop_of_write_kind.
  open_bind. unfold own_keys. tidy. rewrite own_props_write_kind.
  unfold claim_all.
  destruct (prop_of h c "elementsById") as [| |?|?|?|?|b] eqn:Hb;
    try (cbn [own_props]; by rewrite map_to_list_empty).
  apply (collect_loop c r b seed h cv fd hi Hb).
Qed.

Lemma dom_foldl_claim (g : string → val) (keys : list string) :
  ∀ hats : gmap string val,
    dom (foldl (λ acc id, <[id := g id]> acc) hats keys) = list_to_set keys ∪ dom hats.
Proof.
  induction keys as [|id keys IH]; intros hats; cbn [foldl].
  - set_solver.
  - rewrite IH, dom_insert_L. set_solver.
Qed.

Lemma dom_claim_all (h : gmap loc obj) (v : val) :
  dom (claim_all h v) = dom (own_props h v).
Proof.
  unfold claim_all. rewrite dom_foldl_claim, dom_empty_L, union_empty_r_L.
  apply leibniz_equiv. symmetry. apply dom_alt.
Qed.

Lemma destroy_result (t m r : loc) (seed : list Z) (hats : gmap string val) (w : world) :
  prop_of (heap w) t "moddle" = VRef m →
  prop_of (heap w) m "ids" = VRef r →
  okind (obj_at (heap w) r) = KIds seed hats →
  on_table_destroy (VRef t) w = (Ok tt, set_heap (write_kind r (KIds seed ∅) (heap w)) w).
Proof.
  intros Hm Hr Hk.
  unfold on_table_destroy, mbind, M_bind, get_prop, ids_clear, with_registry.
  by rewrite Hm, Hr, Hk.
Qed.

(** ** Identifier life cycle *)

(** C3.  After a parse-complete event without error, the claimed set of the
    registry of the parsed document's model is the key set of the parse
    context's element index: what was claimed before is gone, every key of
    the index is claimed. *)
Theorem collect_mirrors_index this (ev : ParseComplete) (w : world)
    (defs m r c : loc) (hats : gmap string val) :
  truthy (error ev) = false →
  definitions ev = VRef defs →
  prop_of (heap w) defs "$model" = VRef m →
  prop_of (heap w) m "ids" = VRef r →
  hats_of (heap w) r = Some hats →
  context ev = VRef c →
  ∃ w', on_import_parse_complete this ev w = (Ok tt, w') ∧
        claimed (heap w') r = dom (own_props (heap w) (prop_of (heap w) c "elementsById")).
Proof.
  intros Herr Hdefs Hm Hr Hh Hc. unfold hats_of in Hh.
  destruct (okind (obj_at (heap w) r)) as [| |seed hats'] eqn:Hk; try done.
  destruct w as [h cv fd hi]; cbn [heap] in *.
  eexists. split; [by eapply collect_result|].
  unfold claimed. tidy. rewrite hats_of_write_kind_eq. apply dom_claim_all.
Qed.

(** C4.  A parse-complete event that carries an error leaves every
    registry as it was: the handler returns without collecting, clearing or
    claiming, and the world is untouched. *)
Theorem parse_error_keeps_registry this (ev : ParseComplete) (w : world) :
  truthy (error ev) = true →
  ∃ w', on_import_parse_complete this ev w = (Ok tt, w') ∧
        w' = w ∧
        ∀ r, claimed (heap w') r = claimed (heap w) r.
Proof. intros Herr. exists w. by rewrite parse_error_skips. Qed.

(** C5.  Whatever is claimed, the destroy handler leaves the registry of
    the modeler's model instance with nothing claimed. *)
Theorem destroy_clears_registry (t m r : loc) (hats : gmap string val) (w : world) :
  prop_of (heap w) t "moddle" = VRef m →
  prop_of (heap w) m "ids" = VRef r →
  hats_of (heap w) r = Some hats →
  ∃ w', on_table_destroy (VRef t) w = (Ok tt, w') ∧
        hats_of (heap w') r = Some ∅ ∧
        claimed (heap w') r = ∅.
Proof.
  intros Hm Hr Hh. unfold hats_of in Hh.
  destruct (okind (obj_at (heap w) r)) as [| |seed hats'] eqn:Hk; try done.
  eexists. split; [by eapply destroy_result|].
  unfold claimed. tidy. by rewrite hats_of_write_kind_eq.
Qed.

Section Properties.

Variable createShape : gmap string val → service.
Variable createDiBounds : gmap string val → service.

(** ** What the view-switch handler computes *)

Lemma view_switch_skips this (c : SwitchContext) (w : world) :
  truthy (fromTable c) = false ∨
  (∃ d, decision c = VRef d ∧ truthy (prop_of (heap w) d "extensionElements") = true) →
  on_view_switch createShape createDiBounds this c w = (Ok tt, w).
Proof.
  intros [Hft | (d & Hd & Hee)]; unfold on_view_switch.
  - by rewrite Hft.
  - destruct (truthy (fromTable c)); [|done].
    rewrite Hd. unfold mbind, M_bind, get_prop. by rewrite Hee.
Qed.

Lemma view_switch_result this (c : SwitchContext) (w : world)
    (d s b e a : loc) (h1 h2 : gmap loc obj) (items : list val) :
  truthy (fromTable c) = true →
  decision c = VRef d →
  truthy (prop_of (heap w) d "extensionElements") = false →
  createShape (shape_attrs (VRef d)) (heap w) = (Ok (VRef s), h1) →
  createDiBounds
    (bounds_attrs (prop_of (placed s h1) s "width") (prop_of (placed s h1) s "height"))
    (placed s h1) = (Ok (VRef b), h2) →
  prop_of h2 d "extensionElements" = VRef e →
  prop_of h2 e "values" = VRef a →
  items_of h2 a = Some items →
  ∃ w', on_view_switch createShape createDiBounds this c w = (Ok tt, w') ∧
        heap w' = write_kind a (KArray (items ++ [VRef b]))
                    (write_prop b "$parent" (VRef e)
                       (write_prop e "$parent" (VRef d) h2)) ∧
        canvas w' = canvas w ++ [VRef s] ∧
        fired w' = fired w ++ [added_event (VRef s) (VRef e)].
Proof.
  intros Hft Hd Hno Hs Hb He Hv Ha.
  destruct w as [h cv fd hi]; cbn [heap canvas fired] in *.
  unfold on_view_switch. rewrite Hft, Hd.
  read_prop. rewrite Hno. cbn [negb].
  unfold createDecisionDi.
  open_bind. unfold call at 1. tidy.
  unfold shape_attrs in Hs. rewrite Hs.
  open_bind. unfold assign at 1. tidy.
  read_prop. read_prop.
  open_bind. unfold call at 1. tidy.
  unfold bounds_attrs, placed, default_position in Hb. rewrite Hb.
  read_prop. rewrite He.
  open_bind. unfold set_prop at 1. tidy.
  read_prop. rewrite prop_of_write_prop_key, He by done.
  open_bind. unfold set_prop at 1. tidy.
  read_prop. rewrite !prop_of_write_prop_key, He by done.
  read_prop. rewrite !prop_of_write_prop_key, Hv by done.
  unfold items_of in Ha.
  destruct (okind (obj_at h2 a)) as [|items'|] eqn:Hk; try done.
  injection Ha as ->.
  open_bind. unfold array_push. tidy. rewrite !okind_write_prop, Hk. tidy.
  open_bind. unfold canvas_addShape at 1. tidy.
  read_prop. rewrite prop_of_write_kind, !prop_of_write_prop_key, He by done.
  unfold eventBus_fire. tidy.
  eexists. by split; [reflexivity|].
Qed.

(** When the factories return and the Decision is still without a
    container, the first parenting write throws: no shape reaches the canvas
    and nothing is fired. *)
Lemma view_switch_needs_container this (c : SwitchContext) (w : world)
    (d s : loc) (bounds : val) (h1 h2 : gmap loc obj) :
  truthy (fromTable c) = true →
  decision c = VRef d →
  truthy (prop_of (heap w) d "extensionElements") = false →
  createShape (shape_attrs (VRef d)) (heap w) = (Ok (VRef s), h1) →
  createDiBounds
    (bounds_attrs (prop_of (placed s h1) s "width") (prop_of (placed s h1) s "height"))
    (placed s h1) = (Ok bounds, h2) →
  truthy (prop_of h2 d "extensionElements") = false →
  ∃ e w', on_view_switch createShape createDiBounds this c w = (Throw e, w') ∧
          heap w' = h2 ∧ canvas w' = canvas w ∧ fired w' = fired w.
Proof.
  intros Hft Hd Hno Hs Hb Hstill.
  destruct w as [h cv fd hi]; cbn [heap canvas fired] in *.
  unfold on_view_switch. rewrite Hft, Hd.
  read_prop. rewrite Hno. cbn [negb].
  unfold createDecisionDi.
  open_bind. unfold call at 1. tidy.
  unfold shape_attrs in Hs. rewrite Hs.
  open_bind. unfold assign at 1. tidy.
  read_prop. read_prop.
  open_bind. unfold call at 1. tidy.
  unfold bounds_attrs, placed, default_position in Hb. rewrite Hb.
  read_prop. open_bind.
  destruct (prop_of h2 d "extensionElements"); try done; cbn;
    do 2 eexists; (split; [reflexivity|done]).
Qed.

(** ** Synchronisation: the guard *)

(** C6.  When the switch does not come from the table, or the Decision
    already owns extension elements, the handler returns at once: the world
    (objects, canvas, fired events) is what it was, whatever the factories
    would have done. *)
Theorem view_switch_noop this (c : SwitchContext) (w : world) :
  truthy (fromTable c) = false ∨
  (∃ d, decision c = VRef d ∧ truthy (prop_of (heap w) d "extensionElements") = true) →
  ∃ w', on_view_switch createShape createDiBounds this c w = (Ok tt, w') ∧
        heap w' = heap w ∧ canvas w' = canvas w ∧ fired w' = fired w ∧
        history w' = history w.
Proof. intros Hguard. exists w. by rewrite view_switch_skips. Qed.

(** ** Synchronisation: the position *)




End Properties.

(** ** The registry of a model instance *)

Lemma first_unclaimed_fresh (candidates : list string) (hats : gmap string val) (id : string) :
  first_unclaimed candidates hats = Some id → hats !! id = None ∧ id ∈ candidates.
Proof.
  induction candidates as [|c rest IH]; cbn; [done|].
  destruct (hats !! c) eqn:Hc.
  - intros [? ?]%IH. split; [done|]. by right.
  - intros [= <-]. split; [done|]. by left.
Qed.

Lemma first_unclaimed_finds (candidates : list string) (hats : gmap string val) (c : string) :
  c ∈ candidates → hats !! c = None → is_Some (first_unclaimed candidates hats).
Proof.
  induction candidates as [|c' rest IH]; cbn; [by intros ?%elem_of_nil|].
  intros [->|Hin]%elem_of_cons Hc.
  - by rewrite Hc.
  - destruct (hats !! c'); [by apply IH|done].
Qed.

Lemma obj_at_insert_eq (l : loc) (o : obj) (h : gmap loc obj) : obj_at (<[l := o]> h) l = o.
Proof. unfold obj_at. by rewrite lookup_insert_eq. Qed.

Lemma obj_at_insert_ne (l l' : loc) (o : obj) (h : gmap loc obj) :
  l ≠ l' → obj_at (<[l := o]> h) l' = obj_at h l'.
Proof. intros Hl. unfold obj_at. by rewrite lookup_insert_ne. Qed.

Lemma obj_at_fresh (h : gmap loc obj) : obj_at h (fresh (dom h)) = empty_obj.
Proof.
  unfold obj_at. by rewrite (proj1 (not_elem_of_dom h _) (is_fresh (dom h))).
Qed.

(** C9.  The registry [_createModdle] attaches to the model instance is
    constructed with the three numbers 32, 36 and 1, in this order, and
    starts with nothing claimed; generation never returns an identifier of
    the claimed set, and returns one whenever a candidate is unclaimed. *)
Theorem moddle_registry (Viewer_createModdle : val → service)
    (options : val) (w : world) (m : loc) (h1 : gmap loc obj) :
  Viewer_createModdle options (heap w) = (Ok (VRef m), h1) →
  ∃ r w', _createModdle Viewer_createModdle options w = (Ok (VRef m), w') ∧
          prop_of (heap w') m "ids" = VRef r ∧
          seed_of (heap w') r = Some [32; 36; 1] ∧
          claimed (heap w') r = ∅ ∧
          (∀ candidates w0 id w0',
             ids_next candidates (VRef r) w0 = (Ok (Some id), w0') →
             (id ∉ claimed (heap w0) r) ∧ (id ∈ claimed (heap w0') r)) ∧
          (∀ candidates w0 c,
             is_Some (hats_of (heap w0) r) →
             c ∈ candidates → c ∉ claimed (heap w0) r →
             ∃ id w0', ids_next candidates (VRef r) w0 = (Ok (Some id), w0')).
Proof.
  intros Hm. destruct w as [h cv fd hi]; cbn [heap] in *.
  unfold _createModdle.
  open_bind. unfold call. tidy. rewrite Hm.
  open_bind. unfold new_Ids, new_object. tidy.
  open_bind. unfold set_prop. tidy.
  set (r := fresh (dom h1)).
  exists r. eexists. split; [reflexivity|]. tidy.
  assert (Hkind : okind (obj_at (write_prop m "ids" (VRef r)
                                   (<[r := Obj ∅ (KIds [32; 36; 1] ∅)]> h1)) r)
                  = KIds [32; 36; 1] ∅)
    by (by rewrite okind_write_prop, obj_at_insert_eq).
  split_and!.
  - apply prop_of_write_prop_eq.
  - unfold seed_of. by rewrite Hkind.
  - unfold claimed, hats_of. by rewrite Hkind.
  - intros candidates w0 id w0'. unfold ids_next, claimed, hats_of.
    destruct (okind (obj_at (heap w0) r)) as [| |seed hats]; try done.
    destruct (first_unclaimed candidates hats) eqn:Hf; [|done].
    intros [= <- <-]. apply first_unclaimed_fresh in Hf as [Hf _].
    split; [by apply not_elem_of_dom|].
    tidy. rewrite obj_at_write_kind, decide_True by done.
    cbn [okind]. rewrite dom_insert_L. set_solver.
  - intros candidates w0 c Hreg Hin Hc.
    unfold ids_next, claimed, hats_of in *.
    destruct (okind (obj_at (heap w0) r)) as [| |seed hats]; try (by destruct Hreg).
    apply not_elem_of_dom in Hc.
    destruct (first_unclaimed_finds candidates hats c Hin Hc) as [id ->].
    by do 2 eexists.
Qed.

(** ** The options of the constructor *)

(** C10.  Whatever options the caller passes (none included), the object
    the [Viewer] is initialised with has [editor] set to the table modeler,
    has [editingAllowed] as the caller set it and [true] when the caller did
    not, carries every other field of the caller unchanged, and has no
    further field. *)
Theorem Modeler_options_spec (options : val) (w : world) :
  ∃ o w', Modeler_options options w = (Ok (VRef o), w') ∧
          let caller := own_props (heap w) options in
          let viewer := props (obj_at (heap w') o) in
          viewer !! "editor" = Some TableModeler ∧
          (caller !! "editingAllowed" = None →
           viewer !! "editingAllowed" = Some (VBool true)) ∧
          (∀ k v, k ≠ "editor" → caller !! k = Some v → viewer !! k = Some v) ∧
          (∀ k, k ≠ "editor" → k ≠ "editingAllowed" →
                caller !! k = None → viewer !! k = None).
Proof.
  destruct w as [h cv fd hi]; cbn [heap].
  unfold Modeler_options.
  open_bind. unfold new_object. tidy.
  set (o := fresh (dom h)).
  set (h1 := <[o := Obj {[ "editingAllowed" := VBool true ]} KPlain]> h).
  open_bind. tidy. open_bind. unfold assign. tidy.
  open_bind. unfold set_prop. tidy.
  exists o. eexists. split; [reflexivity|]. tidy. cbn zeta.
  assert (Hliteral : props (obj_at h1 o) = {[ "editingAllowed" := VBool true ]})
    by (unfold h1; by rewrite obj_at_insert_eq).
  unfold write_prop. rewrite !obj_at_write_props, !decide_True by done. cbn [props].
  rewrite !Hliteral. unfold assign_props.
  set (source := if truthy options then own_props h1 options else ∅).
  assert (Hsource : source = own_props h options ∨
                    (own_props h options = ∅ ∧
                     source = {[ "editingAllowed" := VBool true ]})).
  { unfold source.
    destruct options as [| |?|?|?|?|c];
      try (left; cbn [own_props]; by destruct (truthy _)).
    cbn [truthy own_props].
    destruct (decide (c = o)) as [->|Hc].
    - right. unfold h1. by rewrite obj_at_insert_eq, obj_at_fresh.
    - left. unfold h1. by rewrite obj_at_insert_ne. }
  split; [apply lookup_insert_eq|].
  destruct Hsource as [->|[-> ->]].
  - split_and!.
    + intros Hnone. rewrite lookup_insert_ne by done.
      rewrite lookup_union_r by done. apply lookup_singleton_eq.
    + intros k v Hk Hkv. rewrite lookup_insert_ne by done.
      by apply lookup_union_Some_l.
    + intros k Hk Hk' Hnone. rewrite lookup_insert_ne by done.
      rewrite lookup_union_r by done. by apply lookup_singleton_ne.
  - split_and!.
    + intros _. rewrite lookup_insert_ne by done.
      by apply lookup_union_Some_l, lookup_singleton_eq.
    + intros k v _ Hkv. by rewrite lookup_empty in Hkv.
    + intros k Hk Hk' _. rewrite lookup_insert_ne by done.
      rewrite lookup_union_None. split; by apply lookup_singleton_ne.
Qed.


(** ** The factories of the repository *)

Lemma dom_write_prop l k x (h : gmap loc obj) : dom (write_prop l k x h) = {[l]} ∪ dom h.
Proof. unfold write_prop, write_props. apply dom_insert_L. Qed.

Lemma prop_of_obj_at (h h' : gmap loc obj) l k :
  obj_at h' l = obj_at h l → prop_of h' l k = prop_of h l k.
Proof. unfold prop_of. by intros ->. Qed.

(** On a Decision without extension elements the two factories return a
    new shape and a new bounds record and leave the Decision with a new
    container whose value list is empty. *)
Lemma factories_prepare (size : Z * Z) (d : loc) (h : gmap loc obj) :
  truthy (prop_of h d "extensionElements") = false →
  ∃ (s b e a : loc) (h1 h2 : gmap loc obj),
    di_createShape size (shape_attrs (VRef d)) h = (Ok (VRef s), h1) ∧
    spec_createDiBounds
      (bounds_attrs (prop_of (placed s h1) s "width") (prop_of (placed s h1) s "height"))
      (placed s h1) = (Ok (VRef b), h2) ∧
    prop_of h2 d "extensionElements" = VRef e ∧
    prop_of h2 e "values" = VRef a ∧
    items_of h2 a = Some [] ∧
    b ≠ e ∧
    (s ∉ dom h) ∧ (b ∉ dom h) ∧ (e ∉ dom h) ∧ (a ∉ dom h).
Proof.
  intros Hno.
  set (a := fresh (dom h)).
  set (hA := <[a := Obj ∅ (KArray [])]> h).
  set (e := fresh (dom hA)).
  set (hE := <[e := Obj {[ "values" := VRef a ]} KPlain]> hA).
  set (h3 := write_prop d "extensionElements" (VRef e) hE).
  set (s := fresh (dom h3)).
  set (h1 := <[s := Obj (<["width" := VNum size.1]>
                          (<["height" := VNum size.2]> (shape_attrs (VRef d)))) KPlain]> h3).
  set (b := fresh (dom (placed s h1))).
  assert (Hdom3 : dom h3 = {[d]} ∪ ({[e]} ∪ ({[a]} ∪ dom h))).
  { unfold h3, hE, hA. by rewrite dom_write_prop, !dom_insert_L. }
  assert (Hdomp : dom (placed s h1) = {[s]} ∪ ({[s]} ∪ dom h3)).
  { unfold placed, write_props, h1. by rewrite !dom_insert_L. }
  assert (Ha : a ∉ dom h) by apply is_fresh.
  assert (He : e ∉ dom hA) by apply is_fresh.
  assert (Hs : s ∉ dom h3) by apply is_fresh.
  assert (Hb : b ∉ dom (placed s h1)) by apply is_fresh.
  unfold hA in He. rewrite dom_insert_L in He.
  rewrite Hdom3 in Hs. rewrite Hdomp, Hdom3 in Hb.
  assert (e ≠ a) by set_solver.
  assert (s ≠ d ∧ s ≠ e ∧ s ≠ a) as (? & ? & ?) by set_solver.
  assert (b ≠ s ∧ b ≠ d ∧ b ≠ e ∧ b ≠ a) as (? & ? & ? & ?) by set_solver.
  exists s, b, e, a, h1. eexists.
  assert (Hobj : ∀ attrs l, l ≠ b → l ≠ s →
            obj_at (<[b := Obj attrs KPlain]> (placed s h1)) l = obj_at h3 l).
  { intros attrs l Hlb Hls. rewrite obj_at_insert_ne by done.
    unfold placed. rewrite obj_at_write_props, decide_False by done.
    unfold h1. by rewrite obj_at_insert_ne. }
  split_and!.
  - unfold di_createShape, shape_attrs.
    rewrite lookup_insert_ne by done. rewrite lookup_singleton_eq.
    by rewrite Hno.
  - reflexivity.
  - erewrite prop_of_obj_at by (by apply Hobj).
    apply prop_of_write_prop_eq.
  - erewrite prop_of_obj_at by (by apply Hobj).
    unfold h3. rewrite prop_of_write_prop_key by done.
    unfold prop_of, hE. rewrite obj_at_insert_eq. cbn [props].
    by rewrite lookup_singleton_eq.
  - unfold items_of. rewrite Hobj by done.
    unfold h3. rewrite okind_write_prop. unfold hE.
    rewrite obj_at_insert_ne by done. unfold hA. by rewrite obj_at_insert_eq.
  - done.
  - set_solver.
  - set_solver.
  - set_solver.
  - done.
Qed.

(** ** Synchronisation: materialising the shape *)




(** ** No handler throws *)

(** C2.  Under normal conditions (events as the host delivers them, see
    [delivered]) no handler throws: each completes its effect or returns at
    once.  In particular a switch from the table on a Decision without
    extension elements completes. *)
Theorem handlers_complete (size : Z * Z) this (ev : event) (w : world) :
  delivered this ev w →
  ∃ w', handle (di_createShape size) spec_createDiBounds this ev w = (Ok tt, w').
Proof.
  destruct ev as [e| |c]; cbn [delivered handle].
  - intros [Herr|[(r & defs & m & Hdefs & Hm & Hr & Hh) (c & Hc)]].
    + exists w. by apply parse_error_skips.
    + destruct (truthy (error e)) eqn:Herr; [exists w; by apply parse_error_skips|].
      unfold hats_of in Hh.
      destruct (okind (obj_at (heap w) r)) as [| |seed hats] eqn:Hk;
        try (by destruct Hh).
      destruct w as [h cv fd hi]. eexists. by eapply collect_result.
  - intros (r & t & m & -> & Hm & Hr & Hh).
    unfold hats_of in Hh.
    destruct (okind (obj_at (heap w) r)) as [| |seed hats] eqn:Hk;
      try (by destruct Hh).
    eexists. by eapply destroy_result.
  - intros Hc.
    destruct (truthy (fromTable c)) eqn:Hft;
      [|exists w; apply view_switch_skips; by left].
    destruct Hc as [|(d & Hd)]; [done|].
    destruct (truthy (prop_of (heap w) d "extensionElements")) eqn:Hee;
      [exists w; apply view_switch_skips; right; by exists d|].
    destruct (factories_prepare size d (heap w) Hee)
      as (s & b & e & a & h1 & h2 & Hs & Hb & He & Hv & Ha & _).
    destruct (view_switch_result (di_createShape size) spec_createDiBounds
                this c w d s b e a h1 h2 [])
      as (w' & Hrun & _); try done.
    by exists w'.
Qed.

(** ** Synchronisation: the order of the steps *)



(** ** The handlers at work *)




Lemma handlers_complete_witness :
  ∃ w', handle (di_createShape (180, 80)) spec_createDiBounds VUndef
          (ViewSwitch from_table) table_only = (Ok tt, w').
Proof.
  apply (handlers_complete (180, 80) VUndef (ViewSwitch from_table) table_only).
  right. by exists 1%positive.
Defined.


Lemma collect_mirrors_index_witness :
  ∃ w', on_import_parse_complete (VRef 1) parsed loaded = (Ok tt, w') ∧
        claimed (heap w') 3 =
        dom (own_props (heap loaded) (prop_of (heap loaded) 5 "elementsById")).
Proof.
  apply (collect_mirrors_index (VRef 1) parsed loaded 4 2 3 5
           {[ "A" := VBool true; "B" := VBool true ]}); reflexivity.
Defined.

Lemma parse_error_keeps_registry_witness :
  ∃ w', on_import_parse_complete (VRef 1) parse_failed loaded = (Ok tt, w') ∧
        w' = loaded ∧
        ∀ r, claimed (heap w') r = claimed (heap loaded) r.
Proof. apply parse_error_keeps_registry. reflexivity. Defined.

Lemma destroy_clears_registry_witness :
  ∃ w', on_table_destroy (VRef 1) loaded = (Ok tt, w') ∧
        hats_of (heap w') 3 = Some ∅ ∧
        claimed (heap w') 3 = ∅.
Proof.
  apply (destroy_clears_registry 1 2 3 {[ "A" := VBool true; "B" := VBool true ]});
    reflexivity.
Defined.

Lemma view_switch_noop_witness :
  ∃ w', on_view_switch (di_createShape (180, 80)) spec_createDiBounds VUndef
          not_from_table table_only = (Ok tt, w') ∧
        heap w' = heap table_only ∧ canvas w' = canvas table_only ∧
        fired w' = fired table_only ∧ history w' = history table_only.
Proof. apply view_switch_noop. left. reflexivity. Defined.


Lemma moddle_registry_witness :
  ∃ r w', _createModdle plain_createModdle VUndef empty_world = (Ok (VRef 1), w') ∧
          prop_of (heap w') 1 "ids" = VRef r ∧
          seed_of (heap w') r = Some [32; 36; 1] ∧
          claimed (heap w') r = ∅ ∧
          (∀ candidates w0 id w0',
             ids_next candidates (VRef r) w0 = (Ok (Some id), w0') →
             (id ∉ claimed (heap w0) r) ∧ (id ∈ claimed (heap w0') r)) ∧
          (∀ candidates w0 c,
             is_Some (hats_of (heap w0) r) →
             c ∈ candidates → c ∉ claimed (heap w0) r →
             ∃ id w0', ids_next candidates (VRef r) w0 = (Ok (Some id), w0')).
Proof.
  eapply (moddle_registry plain_createModdle VUndef empty_world 1).
  vm_compute. reflexivity.
Defined.

(** The parameters of the registry are not three decreasing lengths: the
    second, 36, is larger than the first, 32. *)
Lemma registry_seed_is_not_three_tier :
  ∃ r w', _createModdle plain_createModdle VUndef empty_world = (Ok (VRef 1), w') ∧
          prop_of (heap w') 1 "ids" = VRef r ∧
          seed_of (heap w') r = Some [32; 36; 1] ∧
          ¬ three_tier_lengths [32; 36; 1].
Proof.
  exists 2%positive. eexists. split; [vm_compute; reflexivity|].
  split; [reflexivity|]. split; [reflexivity|].
  intros (core & fixed & suffix & [= <- <- <-] & Hlt & _). lia.
Defined.

Lemma Modeler_options_spec_witness :
  ∃ o w', Modeler_options (VRef 1) with_options = (Ok (VRef o), w') ∧
          let caller := own_props (heap with_options) (VRef 1) in
          let viewer := props (obj_at (heap w') o) in
          viewer !! "editor" = Some TableModeler ∧
          (caller !! "editingAllowed" = None →
           viewer !! "editingAllowed" = Some (VBool true)) ∧
          (∀ k v, k ≠ "editor" → caller !! k = Some v → viewer !! k = Some v) ∧
          (∀ k, k ≠ "editor" → k ≠ "editingAllowed" →
                caller !! k = None → viewer !! k = None).
Proof. apply (Modeler_options_spec (VRef 1) with_options). Defined.

(** ** Worked examples *)

(** Loading a document over the registry that held A and B leaves exactly
    the three identifiers of the new document claimed. *)
Example collect_on_loaded :
  claimed (heap (on_import_parse_complete (VRef 1) parsed loaded).2) 3
  = {[ "decision"; "decisionTable"; "input1" ]}.
Proof. vm_compute. reflexivity. Qed.

Example failed_parse_on_loaded :
  claimed (heap (on_import_parse_complete (VRef 1) parse_failed loaded).2) 3
  = {[ "A"; "B" ]}.
Proof. vm_compute. reflexivity. Qed.

(** The caller's [editingAllowed] and [width] reach the viewer, the
    caller's [editor] does not. *)
Example options_of_caller :
  let run := Modeler_options (VRef 1) with_options in
  run.1 = Ok (VRef 2) ∧
  props (obj_at (heap run.2) 2) =
  {[ "editor" := TableModeler; "editingAllowed" := VBool false; "width" := VNum 300 ]}.
Proof. split; vm_compute; reflexivity. Qed.

Example options_absent :
  let run := Modeler_options VUndef empty_world in
  run.1 = Ok (VRef 1) ∧
  props (obj_at (heap run.2) 1) =
  {[ "editor" := TableModeler; "editingAllowed" := VBool true ]}.
Proof. split; vm_compute; reflexivity. Qed.

(** The steps of a completed run, in the order they were taken. *)
Example steps_of_a_switch :
  (history (on_view_switch (di_createShape (180, 80)) spec_createDiBounds VUndef
              from_table table_only).2).*1
  = [ AAssign 4 default_position;
      ASetProp 3 "$parent" (VRef 1);
      ASetProp 5 "$parent" (VRef 3);
      APush 2 (VRef 5);
      AAddShape (VRef 4);
      AFire "drdElement.added" {[ "element" := VRef 4; "di" := VRef 3 ]} ].
Proof. vm_compute. reflexivity. Qed.

(** * Further properties of the handlers *)

(** ** Computations that leave things alone *)

Lemma preserves_bind {A B} (R : world → world → Prop) `{!PreOrder R}
    (m : M A) (k : A → M B) :
  preserves R m → (∀ a, preserves R (k a)) → preserves R (m ≫= k).
Proof.
  intros Hm Hk w r w'. unfold mbind, M_bind.
  destruct (m w) as [[a|e] w1] eqn:Hmw.
  - intros Hka. etrans; [by eapply Hm | by eapply Hk].
  - intros [= <- <-]. by eapply Hm.
Qed.

Lemma preserves_ret {A} (R : world → world → Prop) `{!Reflexive R} (a : A) :
  preserves R (mret a : M A).
Proof. intros w r w'. cbv [mret M_ret]. by intros [= <- <-]. Qed.

Lemma preserves_for_each {A} (R : world → world → Prop) `{!PreOrder R}
    (l : list A) (body : A → M unit) :
  (∀ x, preserves R (body x)) → preserves R (for_each l body).
Proof.
  intros Hbody. induction l as [|x l IH]; cbn [for_each].
  - apply preserves_ret. apply _.
  - apply preserves_bind; [apply _|apply Hbody|]. intros _. apply IH.
Qed.

Lemma preserves_get_prop (R : world → world → Prop) `{!Reflexive R} v k :
  preserves R (get_prop v k).
Proof. intros w r w'. destruct v; cbn; by intros [= <- <-]. Qed.

#[local] Instance quiet_preorder : PreOrder quiet.
Proof.
  split.
  - by intros w.
  - intros w1 w2 w3 [? ?] [? ?]. split; congruence.
Qed.

#[local] Instance only_claims_differ_preorder : PreOrder only_claims_differ.
Proof.
  split.
  - by intros w.
  - intros w1 w2 w3 (? & ? & ? & H12) (? & ? & ? & H23).
    split_and!; try congruence.
    intros l. destruct (H12 l) as (? & ? & ?), (H23 l) as (? & ? & ?).
    split_and!; congruence.
Qed.

Lemma with_registry_only_claims ids f : preserves only_claims_differ (with_registry ids f).
Proof.
  intros w r w'. unfold with_registry.
  destruct ids as [| |?|?|?|?|l]; try (by intros [= <- <-]).
  destruct (okind (obj_at (heap w) l)) as [| |seed hats] eqn:Hk;
    try (by intros [= <- <-]).
  intros [= <- <-]. split_and!; try done. tidy.
  intros l'. unfold items_of, seed_of. rewrite obj_at_write_kind.
  destruct (decide (l = l')) as [<-|?]; [|done]. cbn [props okind]. by rewrite Hk.
Qed.

Lemma own_keys_same (R : world → world → Prop) `{!Reflexive R} v :
  preserves R (own_keys v).
Proof. intros w r w'. unfold own_keys. by intros [= <- <-]. Qed.

Lemma collectIds_only_claims definitions context :
  preserves only_claims_differ (_collectIds definitions context).
Proof.
  unfold _collectIds.
  repeat first
    [ apply preserves_bind; [apply _| |intros ?]
    | apply preserves_get_prop; apply _
    | apply with_registry_only_claims
    | apply own_keys_same; apply _
    | apply preserves_for_each; [apply _|intros ?] ].
Qed.

(** ** The registry after a parse *)

Lemma foldl_claim_lookup (g : string → val) (keys : list string) (k : string) :
  ∀ hats : gmap string val,
    foldl (λ acc id, <[id := g id]> acc) hats keys !! k =
    if decide (k ∈ keys) then Some (g k) else hats !! k.
Proof.
  induction keys as [|id keys IH]; intros hats; cbn [foldl].
  - rewrite decide_False; [done|]. by intros ?%elem_of_nil.
  - rewrite IH. destruct (decide (k ∈ keys)) as [Hin|Hnin].
    + rewrite decide_True; [done|]. by right.
    + destruct (decide (k = id)) as [->|Hne].
      * rewrite decide_True by (by left). by rewrite lookup_insert_eq.
      * rewrite decide_False by (by intros [?|?]%elem_of_cons).
        by rewrite lookup_insert_ne.
Qed.

Lemma claim_all_owner (h : gmap loc obj) (b : loc) :
  claim_all h (VRef b) = (λ v, js_or v (VBool true)) <$> props (obj_at h b).
Proof.
  apply map_eq. intros k. unfold claim_all. cbn [own_props].
  rewrite foldl_claim_lookup, lookup_fmap, lookup_empty.
  unfold prop_of.
  destruct (props (obj_at h b) !! k) as [v|] eqn:Hk.
  - rewrite decide_True; [done|].
    apply list_elem_of_fmap. exists (k, v). split; [done|].
    by apply elem_of_map_to_list.
  - rewrite decide_False; [done|].
    intros [[k' v] [-> Hin]]%list_elem_of_fmap.
    apply elem_of_map_to_list in Hin. cbn in Hk. congruence.
Qed.

Lemma claim_all_write_kind l c (h : gmap loc obj) (v : val) :
  claim_all (write_kind l c h) v = claim_all h v.
Proof.
  destruct v; try done.
  by rewrite !claim_all_owner, props_write_kind.
Qed.

(** X1.  After a parse-complete event without error, the registry records
    for every identifier of the element index the element the index maps it
    to ([true] when that is falsy), and records nothing else: looking up an
    identifier gives back its element. *)
Theorem collect_records_owners this (ev : ParseComplete) (w : world)
    (defs m r c b : loc) (hats : gmap string val) :
  truthy (error ev) = false →
  definitions ev = VRef defs →
  prop_of (heap w) defs "$model" = VRef m →
  prop_of (heap w) m "ids" = VRef r →
  hats_of (heap w) r = Some hats →
  context ev = VRef c →
  prop_of (heap w) c "elementsById" = VRef b →
  ∃ w' hats',
    on_import_parse_complete this ev w = (Ok tt, w') ∧
    hats_of (heap w') r = Some hats' ∧
    hats' = (λ v, js_or v (VBool true)) <$> props (obj_at (heap w) b) ∧
    (∀ id el, prop_of (heap w) b id = VRef el → hats' !! id = Some (VRef el)) ∧
    (∀ id, props (obj_at (heap w) b) !! id = None → hats' !! id = None).
Proof.
  intros Herr Hdefs Hm Hr Hh Hc Hb. unfold hats_of in Hh.
  destruct (okind (obj_at (heap w) r)) as [| |seed hats0] eqn:Hk; try done.
  destruct w as [h cv fd hi]; cbn [heap] in *.
  do 2 eexists. split; [by eapply collect_result|]. tidy.
  rewrite hats_of_write_kind_eq, Hb, claim_all_owner.
  split_and!; try done.
  - intros id el Hid. rewrite lookup_fmap. unfold prop_of in Hid.
    destruct (props (obj_at h b) !! id) as [v|]; [|done].
    cbn in Hid. by subst v.
  - intros id Hid. by rewrite lookup_fmap, Hid.
Qed.

(** X2.  Delivering the same parse-complete event a second time changes
    nothing: collecting is idempotent. *)
Theorem collect_twice this (ev : ParseComplete) (w : world)
    (defs m r c : loc) (hats : gmap string val) :
  truthy (error ev) = false →
  definitions ev = VRef defs →
  prop_of (heap w) defs "$model" = VRef m →
  prop_of (heap w) m "ids" = VRef r →
  hats_of (heap w) r = Some hats →
  context ev = VRef c →
  ∃ w1, on_import_parse_complete this ev w = (Ok tt, w1) ∧
        on_import_parse_complete this ev w1 = (Ok tt, w1).
Proof.
  intros Herr Hdefs Hm Hr Hh Hc. unfold hats_of in Hh.
  destruct (okind (obj_at (heap w) r)) as [| |seed hats0] eqn:Hk; try done.
  destruct w as [h cv fd hi]; cbn [heap] in *.
  eexists. split; [by eapply collect_result|].
  erewrite collect_result; try done.
  - by rewrite write_kind_write_kind, prop_of_write_kind, claim_all_write_kind.
  - by rewrite prop_of_write_kind.
  - by rewrite prop_of_write_kind.
  - by rewrite obj_at_write_kind, decide_True.
Qed.

(** X3.  Whatever they are given and however they end, the parse-complete
    and destroy handlers change nothing but the identifiers claimed: no
    property of any object, no array, no registry's parameters, nor the
    canvas, the fired events or the history. *)
Theorem lifecycle_only_claims (createShape createDiBounds : gmap string val → service)
    this (ev : event) (w w' : world) (r : outcome unit) :
  (∀ c, ev ≠ ViewSwitch c) →
  handle createShape createDiBounds this ev w = (r, w') →
  only_claims_differ w w'.
Proof.
  intros Hev. destruct ev as [e| |c]; cbn [handle]; [| |by destruct (Hev c)].
  - unfold on_import_parse_complete. destruct (negb (truthy (error e))).
    + apply collectIds_only_claims.
    + apply preserves_ret. apply _.
  - unfold on_table_destroy.
    repeat first
      [ apply preserves_bind; [apply _| |intros ?]
      | apply preserves_get_prop; apply _
      | apply with_registry_only_claims ].
Qed.

(** X4.  The registry is cleared before the parse context is read: a
    parse-complete event without error and without context throws a
    [TypeError] and leaves the registry with nothing claimed. *)
Theorem collect_without_context this (ev : ParseComplete) (w : world)
    (defs m r : loc) (hats : gmap string val) :
  truthy (error ev) = false →
  definitions ev = VRef defs →
  prop_of (heap w) defs "$model" = VRef m →
  prop_of (heap w) m "ids" = VRef r →
  hats_of (heap w) r = Some hats →
  nullish (context ev) = true →
  ∃ e w', on_import_parse_complete this ev w = (Throw e, w') ∧
          hats_of (heap w') r = Some ∅ ∧
          claimed (heap w') r = ∅.
Proof.
  intros Herr Hdefs Hm Hr Hh Hc. unfold hats_of in Hh.
  destruct (okind (obj_at (heap w) r)) as [| |seed hats0] eqn:Hk; try done.
  destruct w as [h cv fd hi]; cbn [heap] in *.
  unfold on_import_parse_complete. rewrite Herr, Hdefs. cbn [negb].
  unfold _collectIds.
  read_prop. rewrite Hm.
  read_prop. rewrite Hr.
  open_bind. unfold ids_clear, with_registry. tidy. rewrite Hk. tidy.
  open_bind.
  destruct (context ev); try done; cbn;
    do 2 eexists; (split; [reflexivity|]); tidy;
    unfold claimed; by rewrite hats_of_write_kind_eq.
Qed.


(** X6.  Destroying twice is destroying once, and a parse after a destroy
    leaves the world a parse alone would: the registry keeps its parameters
    through a destroy and is repopulated from the index. *)
Theorem collect_after_destroy (ev : ParseComplete) (w : world)
    (t defs m r c : loc) (hats : gmap string val) :
  prop_of (heap w) t "moddle" = VRef m →
  truthy (error ev) = false →
  definitions ev = VRef defs →
  prop_of (heap w) defs "$model" = VRef m →
  prop_of (heap w) m "ids" = VRef r →
  hats_of (heap w) r = Some hats →
  context ev = VRef c →
  ∃ wd w1,
    on_table_destroy (VRef t) w = (Ok tt, wd) ∧
    on_table_destroy (VRef t) wd = (Ok tt, wd) ∧
    seed_of (heap wd) r = seed_of (heap w) r ∧
    on_import_parse_complete (VRef t) ev wd = (Ok tt, w1) ∧
    on_import_parse_complete (VRef t) ev w = (Ok tt, w1).
Proof.
  intros Ht Herr Hdefs Hm Hr Hh Hc. unfold hats_of in Hh.
  destruct (okind (obj_at (heap w) r)) as [| |seed hats0] eqn:Hk; try done.
  destruct w as [h cv fd hi]; cbn [heap] in *.
  exists (World (write_kind r (KIds seed ∅) h) cv fd hi),
    (World (write_kind r (KIds seed (claim_all h (prop_of h c "elementsById"))) h)
       cv fd hi).
  assert (Hm' : ∀ l k, prop_of (write_kind r (KIds seed ∅) h) l k = prop_of h l k)
    by (intros; apply prop_of_write_kind).
  assert (Hk' : okind (obj_at (write_kind r (KIds seed ∅) h) r) = KIds seed ∅)
    by (by rewrite obj_at_write_kind, decide_True).
  split_and!.
  - by eapply destroy_result.
  - erewrite destroy_result; rewrite ?Hm'; try done.
    tidy. by rewrite write_kind_write_kind.
  - tidy. unfold seed_of. by rewrite Hk', Hk.
  - erewrite collect_result; rewrite ?Hm'; try done.
    by rewrite write_kind_write_kind, claim_all_write_kind.
  - by eapply collect_result.
Qed.

(** ** The view switch: what it adds, what it writes *)

Lemma call_quiet (f : service) : preserves quiet (call f).
Proof.
  intros w r w'. unfold call. destruct (f (heap w)) as [r0 h0].
  by intros [= <- <-].
Qed.

Lemma assign_quiet object source : preserves quiet (assign object source).
Proof. intros w r w'. destruct object; cbn; by intros [= <- <-]. Qed.

Lemma set_prop_quiet v k x : preserves quiet (set_prop v k x).
Proof. intros w r w'. destruct v; cbn; by intros [= <- <-]. Qed.

Lemma array_push_quiet array item : preserves quiet (array_push array item).
Proof.
  intros w r w'. unfold array_push.
  destruct array as [| |?|?|?|?|l]; try (by intros [= <- <-]).
  destruct (okind (obj_at (heap w) l)); by intros [= <- <-].
Qed.

Lemma only_claims_quiet (w w' : world) : only_claims_differ w w' → quiet w w'.
Proof. by intros (? & ? & _). Qed.

Lemma nothing_or_one_bind {A} (m : M A) (k : A → M unit) :
  preserves quiet m →
  (∀ a w r w', k a w = (r, w') → nothing_or_one_shape w r w') →
  ∀ w r w', (m ≫= k) w = (r, w') → nothing_or_one_shape w r w'.
Proof.
  intros Hm Hk w r w'. unfold mbind, M_bind.
  destruct (m w) as [[a|e] w1] eqn:Hmw.
  - intros Hka. destruct (Hm _ _ _ Hmw) as [Hcv Hfd].
    destruct (Hk _ _ _ _ Hka) as [[? ?]|(-> & shape & di & ? & ?)].
    + left. split; congruence.
    + right. split; [done|]. exists shape, di. split; congruence.
  - intros [= <- <-]. left. by eapply Hm.
Qed.

Lemma createDecisionDi_nothing_or_one
    (createShape createDiBounds : gmap string val → service)
    (decision : val) (w w' : world) (r : outcome unit) :
  createDecisionDi createShape createDiBounds decision w = (r, w') →
  nothing_or_one_shape w r w'.
Proof.
  revert w r w'. unfold createDecisionDi.
  apply nothing_or_one_bind; [apply call_quiet|]. intros shape.
  apply nothing_or_one_bind; [apply assign_quiet|]. intros shape'.
  apply nothing_or_one_bind; [apply preserves_get_prop; apply _|]. intros width.
  apply nothing_or_one_bind; [apply preserves_get_prop; apply _|]. intros height.
  apply nothing_or_one_bind; [apply call_quiet|]. intros bounds.
  destruct (nullish decision) eqn:Hnull.
  { intros w r w'. open_bind.
    destruct decision; try done; cbn; intros [= <- <-]; by left. }
  apply nothing_or_one_bind; [apply preserves_get_prop; apply _|]. intros e1.
  apply nothing_or_one_bind; [apply set_prop_quiet|]. intros _.
  apply nothing_or_one_bind; [apply preserves_get_prop; apply _|]. intros e2.
  apply nothing_or_one_bind; [apply set_prop_quiet|]. intros _.
  apply nothing_or_one_bind; [apply preserves_get_prop; apply _|]. intros e3.
  apply nothing_or_one_bind; [apply preserves_get_prop; apply _|]. intros values.
  apply nothing_or_one_bind; [apply array_push_quiet|]. intros _.
  intros w r w'. open_bind. unfold canvas_addShape at 1. tidy.
  destruct (get_prop_cases decision "extensionElements"
              (World (heap w) (canvas w ++ [shape']) (fired w)
                 (history w ++ [(AAddShape shape', heap w)])))
    as [[di Hdi]|[e He]].
  - open_bind. rewrite Hdi. unfold eventBus_fire. tidy.
    intros [= <- <-]. right. split; [done|]. by exists shape', di.
  - destruct decision; done.
Qed.

(** X7.  Whatever the event and whatever the shape and DI factories do
    (return anything, change the store, throw), a handler leaves canvas and
    fired events as they were, or it returned normally, added exactly one
    shape and fired exactly one ['drdElement.added'] carrying that shape.
    [canvas.addShape] and [eventBus.fire] are taken to return normally, as
    their models do: given that, no failure of a factory or of the
    routine's own steps leaves a shape on the canvas without its
    notification. *)
Theorem handlers_add_nothing_or_one_shape
    (createShape createDiBounds : gmap string val → service)
    this (ev : event) (w w' : world) (r : outcome unit) :
  handle createShape createDiBounds this ev w = (r, w') →
  nothing_or_one_shape w r w'.
Proof.
  destruct ev as [e| |c]; cbn [handle].
  - unfold on_import_parse_complete. destruct (negb (truthy (error e))).
    + intros Hrun. left. by eapply only_claims_quiet, collectIds_only_claims.
    + intros [= <- <-]. by left.
  - intros Hrun. left. eapply only_claims_quiet.
    revert w r w' Hrun. unfold on_table_destroy.
    repeat first
      [ apply preserves_bind; [apply _| |intros ?]
      | apply preserves_get_prop; apply _
      | apply with_registry_only_claims ].
  - unfold on_view_switch. destruct (truthy (fromTable c)).
    + revert w r w'.
      apply nothing_or_one_bind; [apply preserves_get_prop; apply _|]. intros ee.
      destruct (negb (truthy ee)).
      * intros w r w'. apply createDecisionDi_nothing_or_one.
      * intros w r w' [= <- <-]. by left.
    + intros [= <- <-]. by left.
Qed.

Section SwitchFromTable.

Variable createShape : gmap string val → service.
Variable createDiBounds : gmap string val → service.

(** X8.  Switching from the table a second time does nothing: once the
    routine has completed the Decision owns extension elements, and the
    guard keeps the routine from running again. *)
Theorem view_switch_twice this (c : SwitchContext) (w : world)
    (d s b e a : loc) (h1 h2 : gmap loc obj) (items : list val) :
  truthy (fromTable c) = true →
  decision c = VRef d →
  truthy (prop_of (heap w) d "extensionElements") = false →
  createShape (shape_attrs (VRef d)) (heap w) = (Ok (VRef s), h1) →
  createDiBounds
    (bounds_attrs (prop_of (placed s h1) s "width") (prop_of (placed s h1) s "height"))
    (placed s h1) = (Ok (VRef b), h2) →
  prop_of h2 d "extensionElements" = VRef e →
  prop_of h2 e "values" = VRef a →
  items_of h2 a = Some items →
  ∃ w', on_view_switch createShape createDiBounds this c w = (Ok tt, w') ∧
        on_view_switch createShape createDiBounds this c w' = (Ok tt, w') ∧
        canvas w' = canvas w ++ [VRef s].
Proof.
  intros Hft Hd Hno Hs Hb He Hv Ha.
  destruct (view_switch_result createShape createDiBounds this c w d s b e a h1 h2 items)
    as (w' & Hrun & Hheap & Hcv & Hfd); try done.
  exists w'. split_and!; try done.
  apply view_switch_skips. right. exists d. split; [done|].
  by rewrite Hheap, prop_of_write_kind, !prop_of_write_prop_key, He.
Qed.

(** X9.  What the routine writes itself.  On the shape: [x] and [y], and
    nothing else (so the bounds are asked for with the width and height the
    shape factory gave).  After the factories: [$parent] of the container
    and of the bounds record, and the one append to the value list; every
    other property of every object, every other array and every registry
    are as the factories left them. *)
Theorem view_switch_writes this (c : SwitchContext) (w : world)
    (d s b e a : loc) (h1 h2 : gmap loc obj) (items : list val) :
  truthy (fromTable c) = true →
  decision c = VRef d →
  truthy (prop_of (heap w) d "extensionElements") = false →
  createShape (shape_attrs (VRef d)) (heap w) = (Ok (VRef s), h1) →
  createDiBounds
    (bounds_attrs (prop_of (placed s h1) s "width") (prop_of (placed s h1) s "height"))
    (placed s h1) = (Ok (VRef b), h2) →
  prop_of h2 d "extensionElements" = VRef e →
  prop_of h2 e "values" = VRef a →
  items_of h2 a = Some items →
  ∃ w', on_view_switch createShape createDiBounds this c w = (Ok tt, w') ∧
        (∀ l k, ¬ (l = s ∧ (k = "x" ∨ k = "y")) →
                prop_of (placed s h1) l k = prop_of h1 l k) ∧
        (∀ l, okind (obj_at (placed s h1) l) = okind (obj_at h1 l)) ∧
        (∀ l k, k ≠ "$parent" → prop_of (heap w') l k = prop_of h2 l k) ∧
        (∀ l, l ≠ e → l ≠ b →
              prop_of (heap w') l "$parent" = prop_of h2 l "$parent") ∧
        (∀ l, l ≠ a → okind (obj_at (heap w') l) = okind (obj_at h2 l)).
Proof.
  intros Hft Hd Hno Hs Hb He Hv Ha.
  destruct (view_switch_result createShape createDiBounds this c w d s b e a h1 h2 items)
    as (w' & Hrun & Hheap & Hcv & Hfd); try done.
  exists w'. rewrite Hheap. split_and!; try done.
  - intros l k Hlk. unfold prop_of, placed. rewrite obj_at_write_props.
    destruct (decide (s = l)) as [<-|?]; [|done]. cbn [props].
    unfold assign_props, default_position.
    rewrite lookup_union_r; [done|].
    destruct (decide (k = "x")) as [->|?]; [destruct Hlk; by auto|].
    destruct (decide (k = "y")) as [->|?]; [destruct Hlk; by auto|].
    rewrite lookup_insert_ne by done. by apply lookup_singleton_ne.
  - intros l. apply okind_write_props.
  - intros l k Hk. by rewrite prop_of_write_kind, !prop_of_write_prop_key.
  - intros l Hle Hlb. rewrite prop_of_write_kind.
    rewrite !prop_of_write_prop, !decide_False; [done|by intros [??]..].
  - intros l Hla. rewrite obj_at_write_kind, decide_False by done.
    by rewrite !okind_write_prop.
Qed.


End SwitchFromTable.

(** ** The constructor's options and the model instance *)

(** X11.  The options object handed to the [Viewer] is a new object:
    whatever the caller passed, no object that existed before is changed
    (the caller's options are read, never written), and canvas and fired
    events are untouched. *)
Theorem Modeler_options_fresh (options : val) (w : world) :
  ∃ o w', Modeler_options options w = (Ok (VRef o), w') ∧
          (o ∉ dom (heap w)) ∧
          (∀ l, l ≠ o → obj_at (heap w') l = obj_at (heap w) l) ∧
          canvas w' = canvas w ∧ fired w' = fired w.
Proof.
  destruct w as [h cv fd hi]; cbn [heap canvas fired].
  unfold Modeler_options.
  open_bind. unfold new_object. tidy.
  open_bind. tidy. open_bind. unfold assign. tidy.
  open_bind. unfold set_prop. tidy.
  do 2 eexists. split; [reflexivity|]. tidy.
  split_and!; try done; [apply is_fresh|].
  intros l Hl. unfold write_prop.
  rewrite !obj_at_write_props, !decide_False by done.
  by apply obj_at_insert_ne.
Qed.

(** X12.  As long as the [Viewer]'s own [_createModdle] does not return a
    function (whose properties this model does not represent),
    [_createModdle] returns a model instance exactly when the [Viewer]'s
    returns an object: its exception is passed on, and [undefined], [null]
    or a primitive makes the assignment of [ids] throw. *)
Theorem createModdle_completes_iff (Viewer_createModdle : val → service)
    (options : val) (w : world) :
  (∀ name h1, Viewer_createModdle options (heap w) ≠ (Ok (VFun name), h1)) →
  (∃ v w', _createModdle Viewer_createModdle options w = (Ok v, w')) ↔
  (∃ m h1, Viewer_createModdle options (heap w) = (Ok (VRef m), h1)).
Proof.
  intros Hfun. destruct w as [h cv fd hi]; cbn [heap] in *.
  unfold _createModdle.
  open_bind. unfold call. tidy.
  destruct (Viewer_createModdle options h) as [[moddle|e] h1].
  - open_bind. unfold new_Ids, new_object. tidy.
    open_bind. unfold set_prop. tidy.
    destruct moddle as [| |?|?|?|name|m]; cbn; split;
      try (by intros (? & ? & [=])); try (by destruct (Hfun name h1));
      intros _; by eauto.
  - split; by intros (? & ? & [=]).
Qed.

(** X13.  The registry [_createModdle] attaches is a new object, distinct
    from the model instance and from every object the [Viewer] left in the
    store; of the model instance only [ids] is written, and no other object
    is changed. *)
Theorem createModdle_adds_only_registry (Viewer_createModdle : val → service)
    (options : val) (w : world) (m : loc) (h1 : gmap loc obj) :
  Viewer_createModdle options (heap w) = (Ok (VRef m), h1) →
  m ∈ dom h1 →
  ∃ r w', _createModdle Viewer_createModdle options w = (Ok (VRef m), w') ∧
          prop_of (heap w') m "ids" = VRef r ∧
          (r ∉ dom h1) ∧ r ≠ m ∧
          (∀ k, k ≠ "ids" → prop_of (heap w') m k = prop_of h1 m k) ∧
          okind (obj_at (heap w') m) = okind (obj_at h1 m) ∧
          (∀ l, l ≠ r → l ≠ m → obj_at (heap w') l = obj_at h1 l) ∧
          canvas w' = canvas w ∧ fired w' = fired w.
Proof.
  intros Hm Hin. destruct w as [h cv fd hi]; cbn [heap canvas fired] in *.
  unfold _createModdle.
  open_bind. unfold call. tidy. rewrite Hm.
  open_bind. unfold new_Ids, new_object. tidy.
  open_bind. unfold set_prop. tidy.
  set (r := fresh (dom h1)).
  assert (Hr : r ∉ dom h1) by apply is_fresh.
  assert (Hrm : r ≠ m) by (by intros ->).
  exists r. eexists. split; [reflexivity|]. tidy.
  split_and!; try done.
  - apply prop_of_write_prop_eq.
  - intros k Hk. rewrite prop_of_write_prop_key by done.
    unfold prop_of. by rewrite obj_at_insert_ne.
  - by rewrite okind_write_prop, obj_at_insert_ne.
  - intros l Hlr Hlm. unfold write_prop.
    rewrite obj_at_write_props, decide_False by done.
    by apply obj_at_insert_ne.
Qed.

(** ** Edges *)

(** X14.  When the shape factory throws, or returns [undefined] or [null],
    the routine throws before the DI factory is asked for anything: the
    store is as the shape factory left it, and canvas, fired events and
    history are untouched. *)
Theorem switch_fails_with_shape_factory
    (createShape createDiBounds : gmap string val → service)
    (decision : val) (w : world) (h1 : gmap loc obj) :
  (∃ e, createShape (shape_attrs decision) (heap w) = (Throw e, h1)) ∨
  (∃ v, createShape (shape_attrs decision) (heap w) = (Ok v, h1) ∧ nullish v = true) →
  ∃ e, createDecisionDi createShape createDiBounds decision w =
       (Throw e, World h1 (canvas w) (fired w) (history w)).
Proof.
  unfold shape_attrs, createDecisionDi.
  intros [[e Hs]|(v & Hs & Hv)]; open_bind; unfold call at 1; rewrite Hs; tidy.
  - by exists e.
  - open_bind. destruct v; try done; cbn; by eauto.
Qed.

(** X15.  A parse context whose [elementsById] is [undefined], [null], a
    boolean or a number has nothing to enumerate and counts as an empty
    document: the handler completes and leaves the registry with nothing
    claimed. *)
Theorem collect_without_index this (ev : ParseComplete) (w : world)
    (defs m r c : loc) (hats : gmap string val) :
  truthy (error ev) = false →
  definitions ev = VRef defs →
  prop_of (heap w) defs "$model" = VRef m →
  prop_of (heap w) m "ids" = VRef r →
  hats_of (heap w) r = Some hats →
  context ev = VRef c →
  without_keys (prop_of (heap w) c "elementsById") = true →
  ∃ w', on_import_parse_complete this ev w = (Ok tt, w') ∧
        hats_of (heap w') r = Some ∅ ∧
        claimed (heap w') r = ∅.
Proof.
  intros Herr Hdefs Hm Hr Hh Hc Hb. unfold hats_of in Hh.
  destruct (okind (obj_at (heap w) r)) as [| |seed hats0] eqn:Hk; try done.
  destruct w as [h cv fd hi]; cbn [heap] in *.
  eexists. split; [by eapply collect_result|]. tidy.
  unfold claimed. rewrite hats_of_write_kind_eq.
  destruct (prop_of h c "elementsById"); try done;
    unfold claim_all; cbn [own_props]; by rewrite map_to_list_empty.
Qed.

(** ** The further properties at work *)

Lemma collect_records_owners_witness :
  ∃ w' hats',
    on_import_parse_complete (VRef 1) parsed loaded = (Ok tt, w') ∧
    hats_of (heap w') 3 = Some hats' ∧
    hats' = (λ v, js_or v (VBool true)) <$> props (obj_at (heap loaded) 6) ∧
    (∀ id el, prop_of (heap loaded) 6 id = VRef el → hats' !! id = Some (VRef el)) ∧
    (∀ id, props (obj_at (heap loaded) 6) !! id = None → hats' !! id = None).
Proof.
  apply (collect_records_owners (VRef 1) parsed loaded 4 2 3 5 6
           {[ "A" := VBool true; "B" := VBool true ]}); reflexivity.
Defined.

Lemma collect_twice_witness :
  ∃ w1, on_import_parse_complete (VRef 1) parsed loaded = (Ok tt, w1) ∧
        on_import_parse_complete (VRef 1) parsed w1 = (Ok tt, w1).
Proof.
  apply (collect_twice (VRef 1) parsed loaded 4 2 3 5
           {[ "A" := VBool true; "B" := VBool true ]}); reflexivity.
Defined.

Lemma lifecycle_only_claims_witness :
  only_claims_differ loaded
    (handle (di_createShape (180, 80)) spec_createDiBounds (VRef 1)
       (ImportParseComplete parsed) loaded).2.
Proof.
  eapply (lifecycle_only_claims (di_createShape (180, 80)) spec_createDiBounds
            (VRef 1) (ImportParseComplete parsed) loaded).
  - discriminate.
  - apply surjective_pairing.
Defined.

Lemma collect_without_context_witness :
  ∃ e w', on_import_parse_complete (VRef 1) parsed_without_context loaded
            = (Throw e, w') ∧
          hats_of (heap w') 3 = Some ∅ ∧
          claimed (heap w') 3 = ∅.
Proof.
  apply (collect_without_context (VRef 1) parsed_without_context loaded 4 2 3
           {[ "A" := VBool true; "B" := VBool true ]}); reflexivity.
Defined.


Lemma collect_after_destroy_witness :
  ∃ wd w1,
    on_table_destroy (VRef 1) loaded = (Ok tt, wd) ∧
    on_table_destroy (VRef 1) wd = (Ok tt, wd) ∧
    seed_of (heap wd) 3 = seed_of (heap loaded) 3 ∧
    on_import_parse_complete (VRef 1) parsed wd = (Ok tt, w1) ∧
    on_import_parse_complete (VRef 1) parsed loaded = (Ok tt, w1).
Proof.
  apply (collect_after_destroy parsed loaded 1 4 2 3 5
           {[ "A" := VBool true; "B" := VBool true ]}); reflexivity.
Defined.

Lemma handlers_add_nothing_or_one_shape_witness :
  let run := handle (di_createShape (180, 80)) spec_createDiBounds VUndef
               (ViewSwitch from_table) table_only in
  nothing_or_one_shape table_only run.1 run.2.
Proof.
  intros run.
  apply (handlers_add_nothing_or_one_shape (di_createShape (180, 80))
           spec_createDiBounds VUndef (ViewSwitch from_table) table_only).
  apply surjective_pairing.
Defined.

Lemma view_switch_twice_witness :
  ∃ w', on_view_switch (di_createShape (180, 80)) spec_createDiBounds VUndef
          from_table table_only = (Ok tt, w') ∧
        on_view_switch (di_createShape (180, 80)) spec_createDiBounds VUndef
          from_table w' = (Ok tt, w') ∧
        canvas w' = canvas table_only ++ [VRef 4].
Proof.
  eapply (view_switch_twice (di_createShape (180, 80)) spec_createDiBounds
            VUndef from_table table_only 1 4 5 3 2).
  - reflexivity.
  - reflexivity.
  - reflexivity.
  - vm_compute. reflexivity.
  - vm_compute. reflexivity.
  - reflexivity.
  - reflexivity.
  - reflexivity.
Defined.

Lemma view_switch_writes_witness :
  let h1 := (di_createShape (180, 80) (shape_attrs (VRef 1)) (heap table_only)).2 in
  let h2 := (spec_createDiBounds
               (bounds_attrs (prop_of (placed 4 h1) 4 "width")
                  (prop_of (placed 4 h1) 4 "height")) (placed 4 h1)).2 in
  ∃ w', on_view_switch (di_createShape (180, 80)) spec_createDiBounds VUndef
          from_table table_only = (Ok tt, w') ∧
        (∀ l k, ¬ (l = 4%positive ∧ (k = "x" ∨ k = "y")) →
                prop_of (placed 4 h1) l k = prop_of h1 l k) ∧
        (∀ l, okind (obj_at (placed 4 h1) l) = okind (obj_at h1 l)) ∧
        (∀ l k, k ≠ "$parent" → prop_of (heap w') l k = prop_of h2 l k) ∧
        (∀ l, l ≠ 3%positive → l ≠ 5%positive →
              prop_of (heap w') l "$parent" = prop_of h2 l "$parent") ∧
        (∀ l, l ≠ 2%positive → okind (obj_at (heap w') l) = okind (obj_at h2 l)).
Proof.
  intros h1 h2.
  eapply (view_switch_writes (di_createShape (180, 80)) spec_createDiBounds
            VUndef from_table table_only 1 4 5 3 2 h1 h2).
  - reflexivity.
  - reflexivity.
  - reflexivity.
  - vm_compute. reflexivity.
  - vm_compute. reflexivity.
  - reflexivity.
  - reflexivity.
  - reflexivity.
Defined.


Lemma createModdle_adds_only_registry_witness :
  let h1 := (plain_createModdle VUndef (heap empty_world)).2 in
  ∃ r w', _createModdle plain_createModdle VUndef empty_world = (Ok (VRef 1), w') ∧
          prop_of (heap w') 1 "ids" = VRef r ∧
          (r ∉ dom h1) ∧ r ≠ 1%positive ∧
          (∀ k, k ≠ "ids" → prop_of (heap w') 1 k = prop_of h1 1 k) ∧
          okind (obj_at (heap w') 1) = okind (obj_at h1 1) ∧
          (∀ l, l ≠ r → l ≠ 1%positive → obj_at (heap w') l = obj_at h1 l) ∧
          canvas w' = canvas empty_world ∧ fired w' = fired empty_world.
Proof.
  intros h1.
  eapply (createModdle_adds_only_registry plain_createModdle VUndef empty_world 1 h1).
  - vm_compute. reflexivity.
  - vm_compute. reflexivity.
Defined.

Lemma switch_fails_with_shape_factory_witness :
  ∃ e, createDecisionDi failing_factory spec_createDiBounds (VRef 1) table_only =
       (Throw e, World (heap table_only) (canvas table_only) (fired table_only)
                   (history table_only)).
Proof.
  apply (switch_fails_with_shape_factory failing_factory spec_createDiBounds
           (VRef 1) table_only (heap table_only)).
  left. by eexists.
Defined.

Lemma collect_without_index_witness :
  ∃ w', on_import_parse_complete (VRef 1) parsed_without_index loaded = (Ok tt, w') ∧
        hats_of (heap w') 3 = Some ∅ ∧
        claimed (heap w') 3 = ∅.
Proof.
  apply (collect_without_index (VRef 1) parsed_without_index loaded 4 2 3 4
           {[ "A" := VBool true; "B" := VBool true ]}); reflexivity.
Defined.

Lemma createModdle_completes_iff_witness :
  (∃ v w', _createModdle plain_createModdle VUndef empty_world = (Ok v, w')) ↔
  (∃ m h1, plain_createModdle VUndef (heap empty_world) = (Ok (VRef m), h1)).
Proof.
  apply (createModdle_completes_iff plain_createModdle VUndef empty_world).
  intros name h1. vm_compute. discriminate.
Defined.
